(** * CLibMoonlight/LogHelpers.c: the variadic log bridge

    The C shim formats a printf-style message into a 2048-byte automatic
    array with [vsnprintf] and hands the array to the Swift function
    [swiftLogHandler]; a second function returns the address of the first.

    The two functions are embedded as interaction trees.  Everything the
    shim does to its environment is an event: taking the automatic array,
    calling libc's [vsnprintf], calling the Swift handler.  The meaning of
    the stack and libc events is given afterwards by handlers, following
    ISO C for [vsnprintf]; libc's formatter itself is a parameter, and a
    fragment of printf instantiates it in the examples.  The Swift handler
    stays an external call, or is given an arbitrary meaning on a world of
    its own. *)

From Stdlib Require Import ZArith List Strings.String Strings.Ascii Lia Bool.
From Stdlib Require Import DecimalString HexadecimalString.
From Stdlib Require Import Program.Equality.
From ITree Require Import ITree ITreeFacts Events.Exception Events.State
     Events.StateFacts.
Import ListNotations ITreeNotations.
Local Open Scope itree_scope.
Local Open Scope list_scope.

(* ================================================================== *)
(** ** C data *)

(** A [char] is an [ascii]; an array of [char] is a list, index 0 first. *)

(** The terminator of a C string. *)
Definition NUL : ascii := Ascii.zero.

(** Characters of a Rocq string literal, for writing examples. *)
Definition chars (s : string) : list ascii := list_ascii_of_string s.

(** What a [const char*] designates when it is read as text: the characters
    from the pointed-to position up to, not including, the first NUL.  An
    array that holds no NUL has no such text (the read runs off its end). *)
Fixpoint c_str (s : list ascii) : option (list ascii) :=
  match s with
  | [] => None
  | c :: s' =>
      if Ascii.eqb c NUL then Some []
      else match c_str s' with
           | Some t => Some (c :: t)
           | None => None
           end
  end.

(** The characters of [s] before its first NUL (all of [s] when it has none). *)
Fixpoint until_nul (s : list ascii) : list ascii :=
  match s with
  | [] => []
  | c :: s' => if Ascii.eqb c NUL then [] else c :: until_nul s'
  end.

(** The variable arguments of a call, after the default argument promotions:
    an [int] (which is also how a [char] travels), an [unsigned int], or a
    pointer to a C string, given by the characters stored there. *)
Inductive va_arg : Type :=
| Vint (i : Z)
| Vuint (u : Z)
| Vstr (s : list ascii).

Definition va_list := list va_arg.

(** Functions of the linked program, and the values of a [void*] that the
    shim can produce: the null pointer or the address of a function.  The
    address of a function never compares equal to the null pointer
    (ISO C 6.3.2.3). *)
Inductive function : Type :=
| fn_logMessageCallback
| fn_getLogMessageCallbackPointer
| fn_swiftLogHandler.

Inductive pointer : Type :=
| NULL
| FunPtr (f : function).

(* ================================================================== *)
(** ** Events of the shim *)

(** [char buffer[n];] an automatic array of [n] chars is taken from the
    stack; the answer is its contents, which are indeterminate. *)
Variant stackE : Type -> Type :=
| Alloca (n : nat) : stackE (list ascii).

(** [vsnprintf(s, n, format, ap)]: the array [s] points to goes in, the
    array as the call leaves it and the returned [int] come out. *)
Variant stdioE : Type -> Type :=
| vsnprintf (s : list ascii) (n : nat) (format : list ascii) (ap : va_list)
  : stdioE (list ascii * Z).

(** [extern void swiftLogHandler(const char* message);] the handler is
    given the array that [message] points to. *)
Variant swiftE : Type -> Type :=
| swiftLogHandler (message : list ascii) : swiftE unit.

Definition bridgeE : Type -> Type := stackE +' stdioE +' swiftE.

(* ================================================================== *)
(** ** LogHelpers.c *)

(** [sizeof(buffer)] for [char buffer[2048]]. *)
Definition sizeof_buffer : nat := 2048.

(** [[
void logMessageCallback(const char* format, ...) {
    char buffer[2048];
    va_list args;
    va_start(args, format);
    vsnprintf(buffer, sizeof(buffer), format, args);
    va_end(args);
    swiftLogHandler(buffer);
}
]]
    [va_start] and [va_end] bracket the use of the variable arguments and
    do nothing else; [args] is the list of those arguments.  The value
    [vsnprintf] returns is dropped. *)
Definition logMessageCallback (format : list ascii) (args : va_list)
  : itree bridgeE unit :=
  buffer <- trigger (Alloca 2048) ;;
  '(buffer, _) <- trigger (vsnprintf buffer sizeof_buffer format args) ;;
  trigger (swiftLogHandler buffer).

(** [[
void* getLogMessageCallbackPointer(void) {
    return (void* )logMessageCallback;
}
]] *)
Definition getLogMessageCallbackPointer : itree bridgeE pointer :=
  Ret (FunPtr fn_logMessageCallback).

(* ================================================================== *)
(** ** Executions *)

(** One completed interaction with the environment: the event and the
    answer the environment gave. *)
Inductive step : Type :=
| step_Alloca (n : nat) (contents : list ascii)
| step_vsnprintf (s : list ascii) (n : nat) (format : list ascii)
                 (ap : va_list) (s' : list ascii) (ret : Z)
| step_swiftLogHandler (message : list ascii).

Definition step_of_stack {X} (e : stackE X) : X -> step :=
  match e with
  | Alloca n => fun contents => step_Alloca n contents
  end.

Definition step_of_stdio {X} (e : stdioE X) : X -> step :=
  match e with
  | vsnprintf s n format ap =>
      fun r => step_vsnprintf s n format ap (fst r) (snd r)
  end.

Definition step_of_swift {X} (e : swiftE X) : X -> step :=
  match e with
  | swiftLogHandler message => fun _ => step_swiftLogHandler message
  end.

Definition step_of {X} (e : bridgeE X) : X -> step :=
  match e with
  | inl1 e => step_of_stack e
  | inr1 (inl1 e) => step_of_stdio e
  | inr1 (inr1 e) => step_of_swift e
  end.

(** [executes t tr r]: the call [t] runs to completion through the
    interactions [tr], in this order, and returns [r].  An event is
    recorded with its answer, so what follows it in [tr], and the return,
    happen after the environment has answered. *)
Inductive executes {R : Type} : itree bridgeE R -> list step -> R -> Prop :=
| executes_Ret t r :
    observe t = RetF r -> executes t [] r
| executes_Tau t t' tr r :
    observe t = TauF t' -> executes t' tr r -> executes t tr r
| executes_Vis t X (e : bridgeE X) k (x : X) tr r :
    observe t = VisF e k -> executes (k x) tr r ->
    executes t (step_of e x :: tr) r.

Definition is_handler_call (s : step) : bool :=
  match s with
  | step_swiftLogHandler _ => true
  | _ => false
  end.

(** How often the Swift handler is called in an execution. *)
Definition handler_calls (tr : list step) : nat :=
  List.length (filter is_handler_call tr).

(* ================================================================== *)
(** ** The environment: the stack and libc *)

(** Writing [data] through a pointer to the array [s]: the first
    [length data] positions are overwritten and the rest of [s] is left as
    it was.  Data longer than the array runs past its end; the result is
    then longer than [s], which is how an overflow shows in this model. *)
Definition store (s data : list ascii) : list ascii :=
  data ++ skipn (List.length data) s.

(** The array of [logMessageCallback] after libc has formatted the output
    [out] into it: the array taken from a stack holding [garbage], with the
    first 2047 characters of [out] and a NUL stored at its start. *)
Definition rendered (garbage : nat -> ascii) (out : list ascii) : list ascii :=
  store (List.map garbage (seq 0 2048)) (firstn 2047 out ++ [NUL]).

(** Where the C standard defines no behaviour the environment raises
    [Throw tt]; calls of the Swift handler stay events. *)
Definition worldE : Type -> Type := exceptE unit +' swiftE.

Section Libc.

(** The formatted output of libc for a format and its arguments: all the
    characters a [printf] of them produces, or [None] when the C standard
    gives the call no behaviour (a conversion without a matching
    argument, an unknown conversion) or the conversion fails. *)
Variable vformat : list ascii -> va_list -> option (list ascii).

(** ISO C 7.21.6.12 with 7.21.6.5: [vsnprintf(s, n, format, ap)] formats
    as [printf] does; of the output, characters beyond the [n-1]st are
    discarded rather than written, and a null character is written at
    the end of the characters actually written; nothing is written when
    [n] is zero.  It returns the number of characters that would have
    been written had [n] been large enough, not counting the null. *)
Definition c_vsnprintf (s : list ascii) (n : nat) (format : list ascii)
           (ap : va_list) : option (list ascii * Z) :=
  match vformat format ap with
  | None => None
  | Some out =>
      Some (match n with
            | O => s
            | S m => store s (firstn m out ++ [NUL])
            end,
            Z.of_nat (List.length out))
  end.

(** The stack hands out an array whose [i]th char is [garbage i]. *)
Definition h_stack (garbage : nat -> ascii) : stackE ~> itree worldE :=
  fun _ e =>
    match e with
    | Alloca n => Ret (List.map garbage (seq 0 n))
    end.

Definition h_stdio : stdioE ~> itree worldE :=
  fun _ e =>
    match e with
    | vsnprintf s n format ap =>
        match c_vsnprintf s n format ap with
        | Some r => Ret r
        | None => throw tt
        end
    end.

Definition h_swift : swiftE ~> itree worldE :=
  fun _ e => trigger e.

Definition h_bridge (garbage : nat -> ascii) : bridgeE ~> itree worldE :=
  case_ (h_stack garbage) (case_ h_stdio h_swift).

(** A call of the shim on a stack holding [garbage], with the stack and
    libc given their meaning. *)
Definition run {R} (garbage : nat -> ascii) (t : itree bridgeE R)
  : itree worldE R :=
  interp (h_bridge garbage) t.

(** The handler is called once, with the array [buffer], and the call then
    returns; nothing else happens. *)
Definition calls_handler_with (t : itree worldE unit) (buffer : list ascii)
  : Prop :=
  t ≈ trigger (swiftLogHandler buffer).

(** The text the Swift handler is given by a call of [logMessageCallback]:
    the call comes down to a single call of the handler, on an array that
    reads as [text]. *)
Definition handler_receives (garbage : nat -> ascii) (format : list ascii)
           (args : va_list) (text : list ascii) : Prop :=
  exists buffer,
    calls_handler_with (run garbage (logMessageCallback format args)) buffer
    /\ c_str buffer = Some text.

End Libc.

(** *** The Swift side *)

Section Swift.

(** Whatever the Swift program keeps: its state, the log it writes. *)
Variable World : Type.

(** What handling one message does to it.  The handler is given the array
    behind the pointer. *)
Variable swift : list ascii -> World -> World.

Definition h_swiftLogHandler
  : swiftE ~> Monads.stateT World (itree (exceptE unit)) :=
  fun _ e w =>
    match e with
    | swiftLogHandler message => Ret (swift message w, tt)
    end.

Definition h_world : worldE ~> Monads.stateT World (itree (exceptE unit)) :=
  case_ pure_state h_swiftLogHandler.

(** A call of the shim from the world [w], with the stack, libc and the
    Swift handler given their meaning: the world after the call and the
    returned value. *)
Definition exec {R} (vformat : list ascii -> va_list -> option (list ascii))
           (garbage : nat -> ascii) (t : itree bridgeE R) (w : World)
  : itree (exceptE unit) (World * R) :=
  interp_state h_world (run vformat garbage t) w.

End Swift.

Arguments exec {World} swift {R} vformat garbage t w.

(** *** A stack that is asked more than once *)

Section Calls.

Variable vformat : list ascii -> va_list -> option (list ascii).

(** What an automatic array holds when it is taken is indeterminate, and
    need not be the same from one call to the next: it may be what an
    earlier call left at that place.  The [k]th array taken in a run holds
    [stack k i] at position [i]; the state counts the arrays taken. *)
Variable stack : nat -> nat -> ascii.

Definition h_stack_calls : stackE ~> Monads.stateT nat (itree worldE) :=
  fun _ e k =>
    match e with
    | Alloca n => Ret (S k, List.map (stack k) (seq 0 n))
    end.

(** libc and the Swift handler take no array from the stack. *)
Definition h_keep {E : Type -> Type} (h : E ~> itree worldE)
  : E ~> Monads.stateT nat (itree worldE) :=
  fun _ e k => x <- h _ e ;; Ret (k, x).

Definition h_bridge_calls : bridgeE ~> Monads.stateT nat (itree worldE) :=
  case_ h_stack_calls (case_ (h_keep (h_stdio vformat)) (h_keep h_swift)).

(** A run of calls of the shim after [taken] arrays have been taken, with
    the stack and libc given their meaning: the number of arrays taken at
    the end and the returned value. *)
Definition run_calls {R} (taken : nat) (t : itree bridgeE R)
  : itree worldE (nat * R) :=
  interp_state h_bridge_calls t taken.

End Calls.

(** The same with the Swift handler given its meaning on a world. *)
Definition exec_calls {World : Type} (swift : list ascii -> World -> World)
           {R} (vformat : list ascii -> va_list -> option (list ascii))
           (stack : nat -> nat -> ascii) (taken : nat)
           (t : itree bridgeE R) (w : World)
  : itree (exceptE unit) (World * (nat * R)) :=
  interp_state (h_world World swift) (run_calls vformat stack taken t) w.

(* ================================================================== *)
(** ** A fragment of printf *)

(** The conversions [%d %i %u %x %c %s] and [%%] of ISO C 7.21.6.1, without
    flags, field width, precision or length modifier.  Everything else is
    outside the fragment and has no output here. *)

Definition in_int (i : Z) : bool :=
  ((-2147483648 <=? i) && (i <=? 2147483647))%Z.

Definition in_unsigned (u : Z) : bool :=
  ((0 <=? u) && (u <=? 4294967295))%Z.

Definition decimal (i : Z) : list ascii :=
  chars (DecimalString.NilZero.string_of_int (Z.to_int i)).

Definition hexadecimal (u : Z) : list ascii :=
  chars (HexadecimalString.NilZero.string_of_uint (N.to_hex_uint (Z.to_N u))).

(** [%c]: the [int] argument is converted to [unsigned char]. *)
Definition to_uchar (i : Z) : ascii := ascii_of_N (Z.to_N (i mod 256)).

(** The output of the conversion [%conv] for the argument [a]; [None] when
    the argument has the wrong type for it.  [%s] writes the characters of
    the string up to its terminator. *)
Definition conversion (conv : ascii) (a : va_arg) : option (list ascii) :=
  match a with
  | Vint i =>
      if negb (in_int i) then None
      else if Ascii.eqb conv "d" || Ascii.eqb conv "i" then Some (decimal i)
      else if Ascii.eqb conv "c" then Some [to_uchar i]
      else None
  | Vuint u =>
      if negb (in_unsigned u) then None
      else if Ascii.eqb conv "u" then Some (decimal u)
      else if Ascii.eqb conv "x" then Some (hexadecimal u)
      else None
  | Vstr s =>
      if Ascii.eqb conv "s" then Some (until_nul s) else None
  end.

(** The format is read up to its terminator; ordinary characters are
    copied, each conversion consumes one argument, and arguments left over
    at the end are ignored (7.21.6.1p2). *)
Fixpoint printf_fragment (format : list ascii) (ap : va_list)
  : option (list ascii) :=
  match format with
  | [] => Some []
  | c :: format' =>
      if Ascii.eqb c NUL then Some []
      else if negb (Ascii.eqb c "%") then
        option_map (cons c) (printf_fragment format' ap)
      else
        match format' with
        | [] => None
        | conv :: rest =>
            if Ascii.eqb conv "%" then
              option_map (cons conv) (printf_fragment rest ap)
            else
              match ap with
              | [] => None
              | a :: ap' =>
                  match conversion conv a with
                  | Some out => option_map (app out) (printf_fragment rest ap')
                  | None => None
                  end
              end
        end
  end.

(* ================================================================== *)
(** ** Inputs for the examples *)

(** Stack contents: stale characters, none of them NUL. *)
Definition stale (i : nat) : ascii :=
  if Nat.even i then "U"%char else "*"%char.

(** A stack that hands out stale characters first and, to every later
    call, the array [left] by an earlier one. *)
Definition reused (left : list ascii) (k i : nat) : ascii :=
  match k with
  | O => stale i
  | S _ => nth i left NUL
  end.

(** A Swift side that keeps the first nine chars of every array it was
    given, newest first, whatever they are. *)
Definition keep_head (message : list ascii) (log : list (list ascii))
  : list (list ascii) :=
  firstn 9 message :: log.

(** A Swift side that keeps the texts it was given, newest first. *)
Definition keep_text (message : list ascii) (log : list (list ascii))
  : list (list ascii) :=
  match c_str message with
  | Some text => text :: log
  | None => log
  end.

(* ================================================================== *)
(** ** The printf fragment on the scenarios *)

Example printf_fragment_int :
  printf_fragment (chars "value=%d") [Vint 42] = Some (chars "value=42").
Proof. reflexivity. Qed.

Example printf_fragment_two_strings :
  printf_fragment (chars "%s-%s") [Vstr (chars "a"); Vstr (chars "b")]
  = Some (chars "a-b").
Proof. reflexivity. Qed.

Example printf_fragment_literal :
  printf_fragment (chars "ready") [] = Some (chars "ready").
Proof. reflexivity. Qed.

Example printf_fragment_mixed :
  printf_fragment (chars "%d%% of %u is 0x%x, %c%c")
                  [Vint (-5); Vuint 4294967295; Vuint 48879; Vint 65; Vint 322]
  = Some (chars "-5% of 4294967295 is 0xbeef, AB").
Proof. reflexivity. Qed.

Example printf_fragment_long_string :
  printf_fragment (chars "%s") [Vstr (repeat "x"%char 3000)]
  = Some (repeat "x"%char 3000).
Proof. vm_compute. reflexivity. Qed.

Example printf_fragment_mismatch :
  printf_fragment (chars "%d") [Vstr (chars "a")] = None
  /\ printf_fragment (chars "%s") [] = None
  /\ printf_fragment (chars "%d") [Vint 2147483648] = None.
Proof. repeat split. Qed.

(* ================================================================== *)
(** ** C strings in arrays *)

Create Rewrite HintDb list_length.
#[local] Hint Rewrite length_app length_firstn length_map length_seq
  length_skipn repeat_length : list_length.

Lemma c_str_app_nul (a rest : list ascii) :
  c_str (a ++ NUL :: rest) = Some (until_nul a).
Proof.
  induction a as [|c a IH]; simpl.
  - reflexivity.
  - destruct (Ascii.eqb c NUL); [reflexivity|].
    now rewrite IH.
Qed.

Lemma until_nul_no_nul (a : list ascii) :
  ~ In NUL a -> until_nul a = a.
Proof.
  induction a as [|c a IH]; simpl; intros Hin; [reflexivity|].
  destruct (Ascii.eqb_spec c NUL) as [->|_].
  - exfalso. apply Hin. now left.
  - f_equal. apply IH. intros H. apply Hin. now right.
Qed.

Lemma until_nul_length (a : list ascii) :
  List.length (until_nul a) <= List.length a.
Proof.
  induction a as [|c a IH]; simpl; [lia|].
  destruct (Ascii.eqb c NUL); simpl; lia.
Qed.

Lemma In_firstn (c : ascii) (n : nat) (a : list ascii) :
  In c (firstn n a) -> In c a.
Proof.
  revert a. induction n as [|n IH]; intros [|d a]; simpl; try tauto.
  intros [->|H]; [now left|right; now apply IH].
Qed.

(** A store that fits leaves the array at its length. *)
Lemma store_length (s data : list ascii) :
  List.length data <= List.length s ->
  List.length (store s data) = List.length s.
Proof.
  intros H. unfold store. autorewrite with list_length. lia.
Qed.

(** Whatever the array held, it reads as the stored characters up to the
    first NUL among them once they are stored with a NUL behind them. *)
Lemma c_str_store_nul (s a : list ascii) :
  c_str (store s (a ++ [NUL])) = Some (until_nul a).
Proof.
  unfold store. rewrite <- app_assoc. simpl. apply c_str_app_nul.
Qed.

Lemma rendered_length garbage out :
  List.length (rendered garbage out) = 2048.
Proof.
  unfold rendered. rewrite store_length; autorewrite with list_length.
  - reflexivity.
  - change (List.length [NUL]) with 1. lia.
Qed.

Lemma c_str_rendered garbage out :
  c_str (rendered garbage out) = Some (until_nul (firstn 2047 out)).
Proof. apply c_str_store_nul. Qed.

Lemma rendered_firstn garbage out :
  rendered garbage (firstn 2047 out) = rendered garbage out.
Proof.
  unfold rendered. now rewrite firstn_firstn, Nat.min_id.
Qed.

(** A tree that is one call of the handler is so for one array only. *)
Lemma calls_handler_with_inj (t : itree worldE unit) (b1 b2 : list ascii) :
  calls_handler_with t b1 -> calls_handler_with t b2 -> b1 = b2.
Proof.
  unfold calls_handler_with. intros H1 H2. rewrite H1 in H2.
  apply eqit_inv_Vis_weak in H2. destruct H2 as (p & He & _).
  rewrite (Eqdep.EqdepTheory.UIP_refl _ _ p) in He. cbn in He.
  now inversion He.
Qed.

(* ================================================================== *)
(** ** The calls under the meaning of the stack and libc *)

Section LibcFacts.

Variable vformat : list ascii -> va_list -> option (list ascii).

Lemma h_bridge_Alloca garbage n :
  h_bridge vformat garbage _ (subevent _ (Alloca n))
  = Ret (List.map garbage (seq 0 n)).
Proof. reflexivity. Qed.

Lemma h_bridge_vsnprintf garbage s n format ap :
  h_bridge vformat garbage _ (subevent _ (vsnprintf s n format ap))
  = match c_vsnprintf vformat s n format ap with
    | Some r => Ret r
    | None => throw tt
    end.
Proof. reflexivity. Qed.

Lemma h_bridge_swiftLogHandler garbage message :
  h_bridge vformat garbage _ (subevent _ (swiftLogHandler message))
  = trigger (swiftLogHandler message).
Proof. reflexivity. Qed.

(** With [sizeof(buffer)] for [n], at most 2047 characters and the NUL are
    stored. *)
Lemma c_vsnprintf_sizeof_buffer s format ap out :
  vformat format ap = Some out ->
  c_vsnprintf vformat s sizeof_buffer format ap
  = Some (store s (firstn 2047 out ++ [NUL]), Z.of_nat (List.length out)).
Proof.
  intros Hout. unfold c_vsnprintf. rewrite Hout. reflexivity.
Qed.

(** The first event of an interpreted sequence: split the bind and put the
    handler's equation [eqn] in place of the event. *)
Ltac interp_event eqn := rewrite interp_bind, interp_trigger, eqn.

(** For arguments that match the format the call comes down to one call of
    the handler on the rendered array. *)
Lemma run_logMessageCallback garbage format args out :
  vformat format args = Some out ->
  run vformat garbage (logMessageCallback format args)
  ≈ trigger (swiftLogHandler (rendered garbage out)).
Proof.
  intros Hout. unfold run, logMessageCallback.
  interp_event h_bridge_Alloca. rewrite bind_ret_l.
  interp_event h_bridge_vsnprintf.
  rewrite (c_vsnprintf_sizeof_buffer _ _ _ _ Hout), bind_ret_l.
  rewrite interp_trigger, h_bridge_swiftLogHandler.
  reflexivity.
Qed.

Lemma run_getLogMessageCallbackPointer garbage :
  run vformat garbage getLogMessageCallbackPointer
  ≈ Ret (FunPtr fn_logMessageCallback).
Proof.
  unfold run, getLogMessageCallbackPointer. rewrite interp_ret. reflexivity.
Qed.

Lemma handler_receives_rendered garbage format args out :
  vformat format args = Some out ->
  handler_receives vformat garbage format args (until_nul (firstn 2047 out)).
Proof.
  intros Hout. exists (rendered garbage out). split.
  - apply run_logMessageCallback, Hout.
  - apply c_str_rendered.
Qed.

Lemma handler_receives_unique garbage format args t1 t2 :
  handler_receives vformat garbage format args t1 ->
  handler_receives vformat garbage format args t2 ->
  t1 = t2.
Proof.
  intros (b1 & Hb1 & Ht1) (b2 & Hb2 & Ht2).
  rewrite (calls_handler_with_inj _ _ _ Hb1 Hb2) in Ht1. congruence.
Qed.

Section SwiftFacts.

Variable World : Type.
Variable swift : list ascii -> World -> World.

Lemma exec_logMessageCallback garbage format args out w :
  vformat format args = Some out ->
  exec swift vformat garbage (logMessageCallback format args) w
  ≈ Ret (swift (rendered garbage out) w, tt).
Proof.
  intros Hout. unfold exec.
  rewrite (run_logMessageCallback garbage _ _ _ Hout).
  rewrite interp_state_trigger. reflexivity.
Qed.

Lemma exec_getLogMessageCallbackPointer garbage w :
  exec swift vformat garbage getLogMessageCallbackPointer w
  ≈ Ret (w, FunPtr fn_logMessageCallback).
Proof.
  unfold exec. rewrite run_getLogMessageCallbackPointer.
  rewrite interp_state_ret. reflexivity.
Qed.

End SwiftFacts.

End LibcFacts.

(* ================================================================== *)
(** ** Executions of the two functions *)

Lemma executes_inv_RetF {R} (t : itree bridgeE R) r0 tr r :
  observe t = RetF r0 -> executes t tr r -> tr = [] /\ r = r0.
Proof.
  intros Ht H. inversion H; subst; rewrite Ht in *; try discriminate.
  split; congruence.
Qed.

Lemma executes_inv_VisF {R X} (t : itree bridgeE R) (e : bridgeE X) k tr r :
  observe t = VisF e k -> executes t tr r ->
  exists x tr', tr = step_of e x :: tr' /\ executes (k x) tr' r.
Proof.
  intros Ht H. inversion H; subst; rewrite Ht in *; try discriminate.
  match goal with
  | H0 : VisF _ _ = VisF _ _ |- _ => dependent destruction H0
  end.
  eauto.
Qed.

Lemma executes_step {R X} (t : itree bridgeE R) (e : bridgeE X) k x s tr r :
  observe t = VisF e k -> s = step_of e x -> executes (k x) tr r ->
  executes t (s :: tr) r.
Proof.
  intros Ht -> H. eapply executes_Vis; eassumption.
Qed.

(** The next interaction of an execution [H], read off the tree. *)
Ltac next_step H :=
  eapply executes_inv_VisF in H; [|cbn; reflexivity].

Lemma executes_logMessageCallback_inv format args tr r :
  executes (logMessageCallback format args) tr r ->
  exists contents buffer ret,
    tr = [step_Alloca 2048 contents;
          step_vsnprintf contents sizeof_buffer format args buffer ret;
          step_swiftLogHandler buffer].
Proof.
  intros H.
  next_step H. destruct H as (contents & tr1 & -> & H).
  next_step H. destruct H as ([buffer ret] & tr2 & -> & H).
  next_step H. destruct H as ([] & tr3 & -> & H).
  eapply executes_inv_RetF in H; [|cbn; reflexivity].
  destruct H as [-> _].
  exists contents, buffer, ret. reflexivity.
Qed.

Lemma executes_logMessageCallback format args contents buffer ret :
  executes (logMessageCallback format args)
           [step_Alloca 2048 contents;
            step_vsnprintf contents sizeof_buffer format args buffer ret;
            step_swiftLogHandler buffer] tt.
Proof.
  eapply executes_step with (e := subevent _ (Alloca 2048)) (x := contents);
    [cbn; reflexivity|reflexivity|].
  eapply executes_step
    with (e := subevent _ (vsnprintf contents sizeof_buffer format args))
         (x := (buffer, ret));
    [cbn; reflexivity|reflexivity|].
  eapply executes_step with (e := subevent _ (swiftLogHandler buffer)) (x := tt);
    [cbn; reflexivity|reflexivity|].
  eapply executes_Ret. cbn. reflexivity.
Qed.

Lemma executes_getLogMessageCallbackPointer_inv tr p :
  executes getLogMessageCallbackPointer tr p ->
  tr = [] /\ p = FunPtr fn_logMessageCallback.
Proof.
  intros H. eapply executes_inv_RetF in H; [|cbn; reflexivity]. exact H.
Qed.

(* ================================================================== *)
(** ** Calls in sequence *)

(** What a sequence shows first is read off its first part. *)
Lemma observe_bind {R S} (t : itree bridgeE R) (k : R -> itree bridgeE S) :
  observe (ITree.bind t k)
  = observe (match observe t with
             | RetF r => k r
             | TauF t' => Tau (ITree.bind t' k)
             | VisF e ke => Vis e (fun x => ITree.bind (ke x) k)
             end).
Proof. reflexivity. Qed.

(** [executes] looks at a tree through [observe] only. *)
Lemma executes_observe {R} (t u : itree bridgeE R) tr r :
  observe t = observe u -> executes t tr r -> executes u tr r.
Proof.
  intros Hobs H. destruct H as [t r H|t t' tr r H H'|t X e k x tr r H H'];
    rewrite Hobs in H.
  - now apply executes_Ret.
  - now apply executes_Tau with t'.
  - now apply executes_Vis with k.
Qed.

(** An execution of the first part followed by an execution of the rest
    is an execution of the sequence. *)
Lemma executes_bind {R S} (t : itree bridgeE R) (k : R -> itree bridgeE S)
      tr1 r1 tr2 r :
  executes t tr1 r1 -> executes (k r1) tr2 r ->
  executes (ITree.bind t k) (tr1 ++ tr2) r.
Proof.
  intros H1 H2.
  induction H1 as [t r1 H|t t' tr1 r1 H H1 IH|t X e ke x tr1 r1 H H1 IH].
  - apply executes_observe with (k r1); [|exact H2].
    rewrite observe_bind, H. reflexivity.
  - apply executes_Tau with (ITree.bind t' k).
    + rewrite observe_bind, H. reflexivity.
    + apply IH, H2.
  - simpl. apply executes_Vis with (fun x => ITree.bind (ke x) k).
    + rewrite observe_bind, H. reflexivity.
    + apply IH, H2.
Qed.

(** Every execution of a sequence splits in this way. *)
Lemma executes_bind_inv {R S} (t : itree bridgeE R) (k : R -> itree bridgeE S)
      tr r :
  executes (ITree.bind t k) tr r ->
  exists tr1 r1 tr2,
    executes t tr1 r1 /\ executes (k r1) tr2 r /\ tr = tr1 ++ tr2.
Proof.
  intros H. remember (ITree.bind t k) as u eqn:Hu. revert t Hu.
  induction H as [u r H|u u' tr r H H' IH|u X e ku x tr r H H' IH];
    intros t ->; rewrite observe_bind in H;
    destruct (observe t) as [r1|t0|Y e0 k0] eqn:Ht; cbn in H;
    try discriminate.
  - exists [], r1, []. repeat split.
    + now apply executes_Ret.
    + now apply executes_Ret.
  - exists [], r1, tr. repeat split.
    + now apply executes_Ret.
    + now apply executes_Tau with u'.
  - injection H as <-.
    destruct (IH t0 eq_refl) as (tr1 & r1 & tr2 & H1 & H2 & ->).
    exists tr1, r1, tr2. repeat split; [|exact H2].
    now apply executes_Tau with t0.
  - exists [], r1, (step_of e x :: tr). repeat split.
    + now apply executes_Ret.
    + now apply executes_Vis with ku.
  - dependent destruction H.
    destruct (IH (k0 x) eq_refl) as (tr1 & r1 & tr2 & H1 & H2 & ->).
    exists (step_of e x :: tr1), r1, tr2. repeat split; [|exact H2].
    now apply executes_Vis with k0.
Qed.

Lemma until_nul_prefix (a : list ascii) :
  exists rest, a = until_nul a ++ rest.
Proof.
  induction a as [|c a [rest IH]]; simpl.
  - now exists [].
  - destruct (Ascii.eqb c NUL).
    + now exists (c :: a).
    + exists rest. simpl. now rewrite <- IH.
Qed.

Lemma until_nul_not_In (a : list ascii) :
  ~ In NUL (until_nul a).
Proof.
  induction a as [|c a IH]; simpl; [tauto|].
  destruct (Ascii.eqb_spec c NUL) as [->|Hc]; simpl; [tauto|].
  intros [H|H]; [now apply Hc|now apply IH].
Qed.

(** The array after the call, char by char: the kept output, the NUL, and
    behind it what the stack held there. *)
Lemma rendered_contents garbage out :
  rendered garbage out
  = firstn 2047 out
    ++ NUL :: List.map garbage
                       (seq (S (Nat.min 2047 (List.length out)))
                            (2047 - Nat.min 2047 (List.length out))).
Proof.
  unfold rendered, store. rewrite <- app_assoc. f_equal.
  change ([NUL] ++ ?l) with (NUL :: l). f_equal.
  rewrite skipn_map, skipn_seq. autorewrite with list_length.
  change (List.length [NUL]) with 1.
  f_equal. f_equal; lia.
Qed.

(** The interactions of a call come first, and the rest of the run is a
    run of what follows the call. *)
Lemma executes_after_logMessageCallback {S} format args
      (k : itree bridgeE S) tr r :
  executes (logMessageCallback format args ;; k) tr r ->
  exists contents buffer ret tr',
    tr = [step_Alloca 2048 contents;
          step_vsnprintf contents sizeof_buffer format args buffer ret;
          step_swiftLogHandler buffer] ++ tr'
    /\ executes k tr' r.
Proof.
  intros H. apply executes_bind_inv in H.
  destruct H as (tr1 & [] & tr2 & H1 & H2 & ->).
  apply executes_logMessageCallback_inv in H1.
  destruct H1 as (contents & buffer & ret & ->).
  exists contents, buffer, ret, tr2. split; [reflexivity|exact H2].
Qed.

(* ================================================================== *)
(** ** Calls on a stack that is asked more than once *)

Section CallsFacts.

Variable vformat : list ascii -> va_list -> option (list ascii).
Variable stack : nat -> nat -> ascii.

Lemma h_bridge_calls_Alloca n taken :
  h_bridge_calls vformat stack _ (subevent _ (Alloca n)) taken
  = Ret (S taken, List.map (stack taken) (seq 0 n)).
Proof. reflexivity. Qed.

Lemma h_bridge_calls_vsnprintf s n format ap taken :
  h_bridge_calls vformat stack _ (subevent _ (vsnprintf s n format ap)) taken
  = (x <- match c_vsnprintf vformat s n format ap with
          | Some r => Ret r
          | None => throw tt
          end ;;
     Ret (taken, x)).
Proof. reflexivity. Qed.

Lemma h_bridge_calls_swiftLogHandler message taken :
  h_bridge_calls vformat stack _ (subevent _ (swiftLogHandler message)) taken
  = (x <- trigger (swiftLogHandler message) ;; Ret (taken, x)).
Proof. reflexivity. Qed.

(** A call takes one array, the [taken]th, and comes down to one call of
    the handler on that array as rendered. *)
Lemma run_calls_logMessageCallback taken format args out :
  vformat format args = Some out ->
  run_calls vformat stack taken (logMessageCallback format args)
  ≈ (trigger (swiftLogHandler (rendered (stack taken) out)) ;;
     Ret (S taken, tt)).
Proof.
  intros Hout. unfold run_calls, logMessageCallback.
  rewrite interp_state_bind, interp_state_trigger, h_bridge_calls_Alloca.
  rewrite bind_ret_l. cbv beta iota delta [fst snd].
  rewrite interp_state_bind, interp_state_trigger, h_bridge_calls_vsnprintf.
  rewrite (c_vsnprintf_sizeof_buffer _ _ _ _ _ Hout), !bind_ret_l.
  fold (rendered (stack taken) out). cbv beta iota delta [fst snd].
  rewrite interp_state_trigger, h_bridge_calls_swiftLogHandler.
  apply eutt_eq_bind. intros []. reflexivity.
Qed.

Lemma run_calls_then {R} taken format args out (k : itree bridgeE R) :
  vformat format args = Some out ->
  run_calls vformat stack taken (logMessageCallback format args ;; k)
  ≈ (trigger (swiftLogHandler (rendered (stack taken) out)) ;;
     run_calls vformat stack (S taken) k).
Proof.
  intros Hout.
  pose proof (run_calls_logMessageCallback taken _ _ _ Hout) as E.
  unfold run_calls in *.
  rewrite interp_state_bind, E, bind_bind.
  apply eutt_eq_bind. intros []. rewrite bind_ret_l.
  cbv beta iota delta [fst snd]. reflexivity.
Qed.

Section CallsSwiftFacts.

Variable World : Type.
Variable swift : list ascii -> World -> World.

Lemma h_world_swiftLogHandler message w :
  h_world World swift _ (subevent _ (swiftLogHandler message)) w
  = Ret (swift message w, tt).
Proof. reflexivity. Qed.

Lemma exec_calls_logMessageCallback taken format args out w :
  vformat format args = Some out ->
  exec_calls swift vformat stack taken (logMessageCallback format args) w
  ≈ Ret (swift (rendered (stack taken) out) w, (S taken, tt)).
Proof.
  intros Hout. unfold exec_calls.
  rewrite (run_calls_logMessageCallback taken _ _ _ Hout).
  rewrite interp_state_bind, interp_state_trigger.
  rewrite h_world_swiftLogHandler, bind_ret_l.
  cbv beta iota delta [fst snd]. rewrite interp_state_ret. reflexivity.
Qed.

Lemma exec_calls_then {R} taken format args out (k : itree bridgeE R) w :
  vformat format args = Some out ->
  exec_calls swift vformat stack taken (logMessageCallback format args ;; k) w
  ≈ exec_calls swift vformat stack (S taken) k
               (swift (rendered (stack taken) out) w).
Proof.
  intros Hout. unfold exec_calls.
  rewrite (run_calls_then taken _ _ _ k Hout).
  rewrite interp_state_bind, interp_state_trigger.
  rewrite h_world_swiftLogHandler, bind_ret_l.
  cbv beta iota delta [fst snd]. reflexivity.
Qed.

End CallsSwiftFacts.

End CallsFacts.

(* ================================================================== *)
(** ** Executions of calls in sequence *)

(** Two calls in sequence: the runs are the three interactions of the
    first call and then the three of the second, for every answer of the
    stack and of [vsnprintf]. *)
Lemma executes_two_calls format1 args1 format2 args2 tr r :
  executes (logMessageCallback format1 args1 ;;
            logMessageCallback format2 args2) tr r
  <-> exists contents1 buffer1 ret1 contents2 buffer2 ret2,
      tr = [step_Alloca 2048 contents1;
            step_vsnprintf contents1 sizeof_buffer format1 args1 buffer1 ret1;
            step_swiftLogHandler buffer1;
            step_Alloca 2048 contents2;
            step_vsnprintf contents2 sizeof_buffer format2 args2 buffer2 ret2;
            step_swiftLogHandler buffer2].
Proof.
  split.
  - intros H. apply executes_after_logMessageCallback in H.
    destruct H as (contents1 & buffer1 & ret1 & tr' & -> & H).
    apply executes_logMessageCallback_inv in H.
    destruct H as (contents2 & buffer2 & ret2 & ->).
    exists contents1, buffer1, ret1, contents2, buffer2, ret2. reflexivity.
  - intros (contents1 & buffer1 & ret1 & contents2 & buffer2 & ret2 & ->).
    destruct r.
    apply (executes_bind
             (logMessageCallback format1 args1)
             (fun _ => logMessageCallback format2 args2)
             [step_Alloca 2048 contents1;
              step_vsnprintf contents1 sizeof_buffer format1 args1
                             buffer1 ret1;
              step_swiftLogHandler buffer1] tt);
      apply executes_logMessageCallback.
Qed.

(** The address fetched, a call, the address fetched again. *)
Lemma executes_fetch_call_fetch format args contents buffer ret :
  executes (p <- getLogMessageCallbackPointer ;;
            logMessageCallback format args ;;
            q <- getLogMessageCallbackPointer ;;
            Ret (p, q))
           [step_Alloca 2048 contents;
            step_vsnprintf contents sizeof_buffer format args buffer ret;
            step_swiftLogHandler buffer]
           (FunPtr fn_logMessageCallback, FunPtr fn_logMessageCallback).
Proof.
  apply (executes_bind
           getLogMessageCallbackPointer
           (fun p => logMessageCallback format args ;;
                     q <- getLogMessageCallbackPointer ;; Ret (p, q))
           [] (FunPtr fn_logMessageCallback)).
  - apply executes_Ret. reflexivity.
  - rewrite <- (app_nil_r [_; _; _]).
    apply (executes_bind
             (logMessageCallback format args)
             (fun _ => q <- getLogMessageCallbackPointer ;;
                       Ret (FunPtr fn_logMessageCallback, q))
             _ tt).
    + apply executes_logMessageCallback.
    + apply executes_Ret. reflexivity.
Qed.

(* ================================================================== *)
(** ** The contract of the bridge *)

(** C1, as amended.  When the arguments match the format and the whole
    formatted output is shorter than 2048 bytes, the Swift handler is given
    the output up to its first NUL byte; for an output with no NUL byte in
    it this is the output, exactly. *)
Theorem logMessageCallback_text_complete
        (vformat : list ascii -> va_list -> option (list ascii))
        garbage format args out :
  vformat format args = Some out ->
  List.length out < 2048 ->
  handler_receives vformat garbage format args (until_nul out)
  /\ (~ In NUL out -> handler_receives vformat garbage format args out).
Proof.
  intros Hout Hlen.
  pose proof (handler_receives_rendered vformat garbage _ _ _ Hout) as H.
  rewrite firstn_all2 in H by lia.
  split; [exact H|].
  intros Hnul. now rewrite until_nul_no_nul in H.
Qed.

(** The scenarios of the specification: ["value=%d"] with 42, ["%s-%s"]
    with two strings, and a format without conversions. *)
Lemma logMessageCallback_text_examples :
  handler_receives printf_fragment stale
                   (chars "value=%d") [Vint 42] (chars "value=42")
  /\ handler_receives printf_fragment stale
                      (chars "%s-%s") [Vstr (chars "a"); Vstr (chars "b")]
                      (chars "a-b")
  /\ handler_receives printf_fragment stale (chars "ready") [] (chars "ready").
Proof.
  split; [|split].
  - refine (proj2 (logMessageCallback_text_complete
                     printf_fragment stale (chars "value=%d") [Vint 42]
                     (chars "value=42") _ _) _).
    + reflexivity.
    + simpl. lia.
    + simpl. intuition discriminate.
  - refine (proj2 (logMessageCallback_text_complete
                     printf_fragment stale (chars "%s-%s")
                     [Vstr (chars "a"); Vstr (chars "b")]
                     (chars "a-b") _ _) _).
    + reflexivity.
    + simpl. lia.
    + simpl. intuition discriminate.
  - refine (proj2 (logMessageCallback_text_complete
                     printf_fragment stale (chars "ready") []
                     (chars "ready") _ _) _).
    + reflexivity.
    + simpl. lia.
    + simpl. intuition discriminate.
Defined.

(** C1 as it is stated fails for an output that holds a NUL byte: ["a%cb"]
    with the character 0 formats to the three bytes [a], NUL, [b], and the
    handler reads the text ["a"]. *)
Lemma logMessageCallback_text_nul_char :
  printf_fragment (chars "a%cb") [Vint 0] = Some ["a"; NUL; "b"]%char
  /\ List.length ["a"; NUL; "b"]%char < 2048
  /\ handler_receives printf_fragment stale (chars "a%cb") [Vint 0] ["a"%char]
  /\ ~ handler_receives printf_fragment stale (chars "a%cb") [Vint 0]
                        ["a"; NUL; "b"]%char.
Proof.
  assert (Hout : printf_fragment (chars "a%cb") [Vint 0]
                 = Some ["a"; NUL; "b"]%char) by reflexivity.
  assert (Hrecv : handler_receives printf_fragment stale (chars "a%cb")
                                   [Vint 0] ["a"%char])
    by exact (handler_receives_rendered _ stale _ _ _ Hout).
  split; [exact Hout|]. split; [simpl; lia|]. split; [exact Hrecv|].
  intros Hbad.
  pose proof (handler_receives_unique _ _ _ _ _ _ Hrecv Hbad) as Heq.
  discriminate Heq.
Qed.

(** C2, as amended.  When the whole formatted output is 2048 bytes or
    longer, the call still comes down to one call of the handler, with no
    error raised; 2047 bytes of the output are kept, and the handler is
    given these first 2047 bytes up to their first NUL byte.  When there
    is no NUL byte among them this is exactly the first 2047 bytes. *)
Theorem logMessageCallback_text_truncated
        (vformat : list ascii -> va_list -> option (list ascii))
        garbage format args out :
  vformat format args = Some out ->
  2048 <= List.length out ->
  List.length (firstn 2047 out) = 2047
  /\ handler_receives vformat garbage format args (until_nul (firstn 2047 out))
  /\ (~ In NUL (firstn 2047 out) ->
      handler_receives vformat garbage format args (firstn 2047 out)).
Proof.
  intros Hout Hlen.
  pose proof (handler_receives_rendered vformat garbage _ _ _ Hout) as H.
  split; [rewrite length_firstn; lia|].
  split; [exact H|].
  intros Hnul. now rewrite until_nul_no_nul in H.
Qed.

(** The scenario of the specification: ["%s"] with a string of 3000 [x]
    gives the handler 2047 [x]. *)
Lemma logMessageCallback_text_truncated_example :
  handler_receives printf_fragment stale
                   (chars "%s") [Vstr (repeat "x"%char 3000)]
                   (repeat "x"%char 2047).
Proof.
  refine (proj2 (proj2 (logMessageCallback_text_truncated
                          printf_fragment stale (chars "%s")
                          [Vstr (repeat "x"%char 3000)]
                          (repeat "x"%char 3000) _ _)) _).
  - vm_compute. reflexivity.
  - rewrite repeat_length. lia.
  - intros Hin. apply In_firstn, repeat_spec in Hin. discriminate Hin.
Defined.

(** C2 as it is stated fails when a NUL byte is among the first 2047 bytes
    of the output: ["%c%s"] with the character 0 and a string of 3000 [x]
    formats to 3001 bytes, and the handler reads the empty text. *)
Lemma logMessageCallback_text_truncated_nul_char :
  printf_fragment (chars "%c%s") [Vint 0; Vstr (repeat "x"%char 3000)]
  = Some (NUL :: repeat "x"%char 3000)
  /\ 2048 <= List.length (NUL :: repeat "x"%char 3000)
  /\ handler_receives printf_fragment stale (chars "%c%s")
                      [Vint 0; Vstr (repeat "x"%char 3000)] []
  /\ ~ handler_receives printf_fragment stale (chars "%c%s")
                        [Vint 0; Vstr (repeat "x"%char 3000)]
                        (firstn 2047 (NUL :: repeat "x"%char 3000)).
Proof.
  assert (Hout : printf_fragment (chars "%c%s")
                                 [Vint 0; Vstr (repeat "x"%char 3000)]
                 = Some (NUL :: repeat "x"%char 3000))
    by (vm_compute; reflexivity).
  assert (Hrecv : handler_receives printf_fragment stale (chars "%c%s")
                                   [Vint 0; Vstr (repeat "x"%char 3000)] [])
    by exact (handler_receives_rendered _ stale _ _ _ Hout).
  split; [exact Hout|].
  split.
  { change (List.length (NUL :: repeat "x"%char 3000))
      with (S (List.length (repeat "x"%char 3000))).
    rewrite repeat_length. lia. }
  split; [exact Hrecv|].
  intros Hbad.
  pose proof (handler_receives_unique _ _ _ _ _ _ Hrecv Hbad) as Heq.
  discriminate Heq.
Qed.



(** C4.  Every call of [getLogMessageCallbackPointer] returns the address
    of [logMessageCallback]; the value is not the null pointer, and any two
    calls return the same value. *)
Theorem getLogMessageCallbackPointer_stable tr1 p1 tr2 p2 :
  executes getLogMessageCallbackPointer tr1 p1 ->
  executes getLogMessageCallbackPointer tr2 p2 ->
  p1 = FunPtr fn_logMessageCallback /\ p1 <> NULL /\ p1 = p2.
Proof.
  intros H1 H2.
  apply executes_getLogMessageCallbackPointer_inv in H1, H2.
  destruct H1 as [_ ->], H2 as [_ ->].
  split; [reflexivity|]. split; [discriminate|reflexivity].
Qed.

Lemma getLogMessageCallbackPointer_stable_example :
  executes getLogMessageCallbackPointer [] (FunPtr fn_logMessageCallback)
  /\ FunPtr fn_logMessageCallback <> NULL.
Proof.
  assert (H : executes getLogMessageCallbackPointer []
                       (FunPtr fn_logMessageCallback))
    by (apply executes_Ret; reflexivity).
  split; [exact H|].
  exact (proj1 (proj2 (getLogMessageCallbackPointer_stable _ _ _ _ H H))).
Defined.

(** C5.  [logMessageCallback] returns [unit].  For arguments that match the
    format, whatever the length of the output, the call comes down to one
    call of the handler followed by the return: the environment's
    [Throw] is never reached.  A truncated output is not told apart: the
    call behaves exactly as a call whose whole output is the 2047 bytes
    that were kept. *)
Theorem logMessageCallback_no_error
        (vformat : list ascii -> va_list -> option (list ascii))
        garbage format args out :
  vformat format args = Some out ->
  (exists buffer,
      run vformat garbage (logMessageCallback format args)
      ≈ trigger (swiftLogHandler buffer))
  /\ (forall format' args',
         vformat format' args' = Some (firstn 2047 out) ->
         run vformat garbage (logMessageCallback format' args')
         ≈ run vformat garbage (logMessageCallback format args)).
Proof.
  intros Hout. split.
  - exists (rendered garbage out).
    apply run_logMessageCallback, Hout.
  - intros format' args' Hout'.
    rewrite (run_logMessageCallback vformat garbage _ _ _ Hout).
    rewrite (run_logMessageCallback vformat garbage _ _ _ Hout').
    rewrite rendered_firstn. reflexivity.
Qed.

(** A string of 3000 [x] is logged like a string of 2047 [x]. *)
Lemma logMessageCallback_no_error_example :
  run printf_fragment stale
      (logMessageCallback (chars "%s") [Vstr (repeat "x"%char 2047)])
  ≈ run printf_fragment stale
        (logMessageCallback (chars "%s") [Vstr (repeat "x"%char 3000)]).
Proof.
  refine (proj2 (logMessageCallback_no_error
                   printf_fragment stale (chars "%s")
                   [Vstr (repeat "x"%char 3000)] (repeat "x"%char 3000) _)
                (chars "%s") [Vstr (repeat "x"%char 2047)] _).
  - vm_compute. reflexivity.
  - vm_compute. reflexivity.
Defined.

(** C6.  The runs of a call of [logMessageCallback] to its return are
    exactly the sequences of three interactions in this order: the array
    is taken from the stack, [vsnprintf] is called on it and answers, and
    the handler is called with the array as [vsnprintf] left it and
    answers; only then the call returns.  There is such a run for every
    answer of the stack and of [vsnprintf], and there is no other run. *)
Theorem logMessageCallback_sequential format args tr r :
  executes (logMessageCallback format args) tr r
  <-> exists contents buffer ret,
      tr = [step_Alloca 2048 contents;
            step_vsnprintf contents sizeof_buffer format args buffer ret;
            step_swiftLogHandler buffer].
Proof.
  split.
  - apply executes_logMessageCallback_inv.
  - intros (contents & buffer & ret & ->). destruct r.
    apply executes_logMessageCallback.
Qed.

(** ["ready"] on a stale stack runs in this order, and does not run with
    the handler called before the array is rendered. *)
Lemma logMessageCallback_sequential_example :
  executes (logMessageCallback (chars "ready") [])
           [step_Alloca 2048 (List.map stale (seq 0 2048));
            step_vsnprintf (List.map stale (seq 0 2048)) sizeof_buffer
                           (chars "ready") []
                           (rendered stale (chars "ready")) 5;
            step_swiftLogHandler (rendered stale (chars "ready"))]
           tt
  /\ ~ executes (logMessageCallback (chars "ready") [])
                [step_swiftLogHandler (List.map stale (seq 0 2048));
                 step_Alloca 2048 (List.map stale (seq 0 2048));
                 step_vsnprintf (List.map stale (seq 0 2048)) sizeof_buffer
                                (chars "ready") []
                                (rendered stale (chars "ready")) 5]
                tt.
Proof.
  split.
  - apply (proj2 (logMessageCallback_sequential (chars "ready") [] _ tt)).
    exists (List.map stale (seq 0 2048)), (rendered stale (chars "ready")),
           5%Z.
    reflexivity.
  - intros H.
    apply (proj1 (logMessageCallback_sequential (chars "ready") [] _ tt)) in H.
    destruct H as (contents & buffer & ret & H). discriminate H.
Defined.

(** C7.  From any world of the Swift program, a call of
    [logMessageCallback] leaves the world that one call of the handler
    makes of the initial one, and a call of
    [getLogMessageCallbackPointer] leaves the world as it was and goes
    through no interaction at all.  Neither function has a state of its
    own to read or write. *)
Theorem bridge_stateless
        (World : Type) (swift : list ascii -> World -> World)
        (vformat : list ascii -> va_list -> option (list ascii))
        garbage format args out (w : World) :
  vformat format args = Some out ->
  exec swift vformat garbage (logMessageCallback format args) w
  ≈ Ret (swift (rendered garbage out) w, tt)
  /\ exec swift vformat garbage getLogMessageCallbackPointer w
     ≈ Ret (w, FunPtr fn_logMessageCallback)
  /\ (forall tr p, executes getLogMessageCallbackPointer tr p -> tr = []).
Proof.
  intros Hout. split; [|split].
  - apply exec_logMessageCallback, Hout.
  - apply exec_getLogMessageCallbackPointer.
  - intros tr p H.
    now apply executes_getLogMessageCallbackPointer_inv in H.
Qed.

(** A Swift side that has logged ["ready"] logs ["value=42"] on top. *)
Lemma bridge_stateless_example :
  exec keep_text printf_fragment stale
       (logMessageCallback (chars "value=%d") [Vint 42]) [chars "ready"]
  ≈ Ret ([chars "value=42"; chars "ready"], tt)
  /\ exec keep_text printf_fragment stale
          getLogMessageCallbackPointer [chars "ready"]
     ≈ Ret ([chars "ready"], FunPtr fn_logMessageCallback).
Proof.
  pose proof (bridge_stateless
                (list (list ascii)) keep_text printf_fragment stale
                (chars "value=%d") [Vint 42] (chars "value=42")
                [chars "ready"] eq_refl) as (H1 & H2 & _).
  split; [|exact H2].
  unfold keep_text in H1 at 2. rewrite c_str_rendered in H1. exact H1.
Defined.

(** C8, as amended.  The array is 2048 chars and every call takes one anew
    from the stack: two calls in sequence take two arrays, and each call's
    [vsnprintf] and handler work on the array of that call.  For arguments
    that match the formats, whatever the stack hands to the second call,
    be it what the first call left, the second array still has 2048 chars
    and reads as the text of the second call.  The calls return nothing.
    But the array is seen outside the function: the handler is given all
    of it, with what the stack held behind the NUL. *)
Theorem logMessageCallback_buffer_scope
        (vformat : list ascii -> va_list -> option (list ascii))
        stack format1 args1 out1 format2 args2 out2 :
  vformat format1 args1 = Some out1 ->
  vformat format2 args2 = Some out2 ->
  (forall tr r,
      executes (logMessageCallback format1 args1 ;;
                logMessageCallback format2 args2) tr r
      <-> exists contents1 buffer1 ret1 contents2 buffer2 ret2,
          tr = [step_Alloca 2048 contents1;
                step_vsnprintf contents1 sizeof_buffer format1 args1
                               buffer1 ret1;
                step_swiftLogHandler buffer1;
                step_Alloca 2048 contents2;
                step_vsnprintf contents2 sizeof_buffer format2 args2
                               buffer2 ret2;
                step_swiftLogHandler buffer2])
  /\ run_calls vformat stack 0
               (logMessageCallback format1 args1 ;;
                logMessageCallback format2 args2)
     ≈ (trigger (swiftLogHandler (rendered (stack 0) out1)) ;;
        trigger (swiftLogHandler (rendered (stack 1) out2)) ;;
        Ret (2, tt))
  /\ List.length (rendered (stack 0) out1) = 2048
  /\ List.length (rendered (stack 1) out2) = 2048
  /\ c_str (rendered (stack 1) out2) = Some (until_nul (firstn 2047 out2))
  /\ rendered (stack 1) out2
     = firstn 2047 out2
       ++ NUL :: List.map (stack 1)
                          (seq (S (Nat.min 2047 (List.length out2)))
                               (2047 - Nat.min 2047 (List.length out2))).
Proof.
  intros Hout1 Hout2.
  split; [intros tr r; apply executes_two_calls|].
  split.
  { rewrite (run_calls_then vformat stack 0 _ _ _ _ Hout1).
    apply eutt_eq_bind. intros [].
    apply run_calls_logMessageCallback, Hout2. }
  split; [apply rendered_length|].
  split; [apply rendered_length|].
  split; [apply c_str_rendered|].
  apply rendered_contents.
Qed.

(** ["value=%d"] with 42 and then ["ready"], the second call finding the
    array of the first on the stack: the handler reads ["ready"], and
    behind it sees what the first call left. *)
Lemma logMessageCallback_buffer_scope_example :
  run_calls printf_fragment (reused (rendered stale (chars "value=42"))) 0
            (logMessageCallback (chars "value=%d") [Vint 42] ;;
             logMessageCallback (chars "ready") [])
  ≈ (trigger (swiftLogHandler (rendered stale (chars "value=42"))) ;;
     trigger (swiftLogHandler
                (rendered (reused (rendered stale (chars "value=42")) 1)
                          (chars "ready"))) ;;
     Ret (2, tt))
  /\ c_str (rendered (reused (rendered stale (chars "value=42")) 1)
                     (chars "ready"))
     = Some (chars "ready")
  /\ firstn 9 (rendered (reused (rendered stale (chars "value=42")) 1)
                        (chars "ready"))
     = chars "ready" ++ [NUL; "4"; "2"; NUL]%char.
Proof.
  destruct (logMessageCallback_buffer_scope
              printf_fragment (reused (rendered stale (chars "value=42")))
              (chars "value=%d") [Vint 42] (chars "value=42")
              (chars "ready") [] (chars "ready") eq_refl eq_refl)
    as (_ & Hrun & _ & _ & Htext & _).
  split; [exact Hrun|]. split; [exact Htext|].
  vm_compute. reflexivity.
Defined.

(** C8 as it is stated fails: the array does not stay inside the function
    body.  In the call of ["ready"] on a stale stack the handler, a
    function outside, is given the array itself: 2048 chars, the text and
    its NUL in front and the chars of the stack behind. *)
Lemma logMessageCallback_buffer_handed_out :
  calls_handler_with
    (run printf_fragment stale (logMessageCallback (chars "ready") []))
    (rendered stale (chars "ready"))
  /\ executes (logMessageCallback (chars "ready") [])
              [step_Alloca 2048 (List.map stale (seq 0 2048));
               step_vsnprintf (List.map stale (seq 0 2048)) sizeof_buffer
                              (chars "ready") []
                              (rendered stale (chars "ready")) 5;
               step_swiftLogHandler (rendered stale (chars "ready"))]
              tt
  /\ List.length (rendered stale (chars "ready")) = 2048
  /\ rendered stale (chars "ready")
     = chars "ready" ++ NUL :: List.map stale (seq 6 2042).
Proof.
  split; [apply run_logMessageCallback; reflexivity|].
  split; [apply executes_logMessageCallback|].
  split; [apply rendered_length|].
  apply rendered_contents.
Qed.

(** C9.  For arguments that match the format, the text the handler is given
    is the same in any two calls with the same format and arguments,
    whatever the stack held when each call took its array. *)
Theorem logMessageCallback_deterministic
        (vformat : list ascii -> va_list -> option (list ascii))
        garbage1 garbage2 format args out :
  vformat format args = Some out ->
  (exists text,
      handler_receives vformat garbage1 format args text
      /\ handler_receives vformat garbage2 format args text)
  /\ (forall text1 text2,
         handler_receives vformat garbage1 format args text1 ->
         handler_receives vformat garbage2 format args text2 ->
         text1 = text2).
Proof.
  intros Hout.
  pose proof (handler_receives_rendered vformat garbage1 _ _ _ Hout) as H1.
  pose proof (handler_receives_rendered vformat garbage2 _ _ _ Hout) as H2.
  split.
  - eexists. split; [exact H1|exact H2].
  - intros text1 text2 Ht1 Ht2.
    rewrite (handler_receives_unique _ _ _ _ _ _ Ht1 H1).
    rewrite (handler_receives_unique _ _ _ _ _ _ Ht2 H2).
    reflexivity.
Qed.

(** Two stacks, one text. *)
Lemma logMessageCallback_deterministic_example :
  exists text,
    handler_receives printf_fragment stale
                     (chars "%s-%s") [Vstr (chars "a"); Vstr (chars "b")] text
    /\ handler_receives printf_fragment (fun _ => "z"%char)
                        (chars "%s-%s") [Vstr (chars "a"); Vstr (chars "b")]
                        text.
Proof.
  exact (proj1 (logMessageCallback_deterministic
                  printf_fragment stale (fun _ => "z"%char)
                  (chars "%s-%s") [Vstr (chars "a"); Vstr (chars "b")]
                  (chars "a-b") eq_refl)).
Defined.

(** C10.  For arguments that match the format, truncated output or not,
    the handler is given an array of 2048 chars, the array taken from the
    stack with at most 2048 chars stored at its start, and the array reads
    as a NUL-terminated text of at most 2047 characters. *)
Theorem logMessageCallback_buffer_terminated
        (vformat : list ascii -> va_list -> option (list ascii))
        garbage format args out :
  vformat format args = Some out ->
  exists buffer data text,
    calls_handler_with (run vformat garbage (logMessageCallback format args))
                       buffer
    /\ buffer = store (List.map garbage (seq 0 2048)) data
    /\ List.length data <= 2048
    /\ List.length buffer = 2048
    /\ c_str buffer = Some text
    /\ List.length text <= 2047.
Proof.
  intros Hout.
  exists (rendered garbage out), (firstn 2047 out ++ [NUL]),
         (until_nul (firstn 2047 out)).
  split; [apply run_logMessageCallback, Hout|].
  split; [reflexivity|].
  split.
  { rewrite length_app, length_firstn. change (List.length [NUL]) with 1. lia. }
  split; [apply rendered_length|].
  split; [apply c_str_rendered|].
  pose proof (until_nul_length (firstn 2047 out)) as H.
  rewrite length_firstn in H. lia.
Qed.

(** The truncated scenario: a string of 3000 [x]. *)
Lemma logMessageCallback_buffer_terminated_example :
  exists buffer data text,
    calls_handler_with
      (run printf_fragment stale
           (logMessageCallback (chars "%s") [Vstr (repeat "x"%char 3000)]))
      buffer
    /\ buffer = store (List.map stale (seq 0 2048)) data
    /\ List.length data <= 2048
    /\ List.length buffer = 2048
    /\ c_str buffer = Some text
    /\ List.length text <= 2047.
Proof.
  refine (logMessageCallback_buffer_terminated
            printf_fragment stale (chars "%s")
            [Vstr (repeat "x"%char 3000)] (repeat "x"%char 3000) _).
  vm_compute. reflexivity.
Defined.

(* ================================================================== *)
(** ** Further properties of the bridge *)

(** X1.  A call of [logMessageCallback] followed by anything: the
    executions are exactly the three interactions of the call followed by
    an execution of what comes next.  The call adds nothing else to a run,
    and what follows it is run as it would be without the call. *)
Theorem logMessageCallback_then {S} format args (k : itree bridgeE S) tr r :
  executes (logMessageCallback format args ;; k) tr r
  <-> exists contents buffer ret tr',
      tr = [step_Alloca 2048 contents;
            step_vsnprintf contents sizeof_buffer format args buffer ret;
            step_swiftLogHandler buffer] ++ tr'
      /\ executes k tr' r.
Proof.
  split.
  - apply executes_after_logMessageCallback.
  - intros (contents & buffer & ret & tr' & -> & H).
    apply executes_bind with tt; [|exact H].
    apply executes_logMessageCallback.
Qed.

(** X2.  Two calls in sequence: the runs to the return are exactly the
    three interactions of the first call followed by the three of the
    second, one run for every answer of the stack and of [vsnprintf].  The
    second call takes an array of its own from the stack, each handler
    call is given the array of its own [vsnprintf], and the handler is
    called twice, in the order of the calls. *)
Theorem logMessageCallback_twice format1 args1 format2 args2 tr r :
  executes (logMessageCallback format1 args1 ;;
            logMessageCallback format2 args2) tr r
  <-> exists contents1 buffer1 ret1 contents2 buffer2 ret2,
      tr = [step_Alloca 2048 contents1;
            step_vsnprintf contents1 sizeof_buffer format1 args1 buffer1 ret1;
            step_swiftLogHandler buffer1;
            step_Alloca 2048 contents2;
            step_vsnprintf contents2 sizeof_buffer format2 args2 buffer2 ret2;
            step_swiftLogHandler buffer2]
      /\ handler_calls tr = 2.
Proof.
  split.
  - intros H. apply executes_two_calls in H.
    destruct H as (contents1 & buffer1 & ret1 & contents2 & buffer2 & ret2
                   & ->).
    exists contents1, buffer1, ret1, contents2, buffer2, ret2.
    split; reflexivity.
  - intros (contents1 & buffer1 & ret1 & contents2 & buffer2 & ret2
            & -> & _).
    apply executes_two_calls.
    exists contents1, buffer1, ret1, contents2, buffer2, ret2. reflexivity.
Qed.

(** ["ready"] and then ["value=%d"] with 42, the second call finding the
    array of the first on the stack: this is a run of the two calls. *)
Lemma logMessageCallback_twice_example :
  executes
    (logMessageCallback (chars "ready") [] ;;
     logMessageCallback (chars "value=%d") [Vint 42])
    [step_Alloca 2048 (List.map stale (seq 0 2048));
     step_vsnprintf (List.map stale (seq 0 2048)) sizeof_buffer
                    (chars "ready") []
                    (rendered stale (chars "ready")) 5;
     step_swiftLogHandler (rendered stale (chars "ready"));
     step_Alloca 2048 (rendered stale (chars "ready"));
     step_vsnprintf (rendered stale (chars "ready")) sizeof_buffer
                    (chars "value=%d") [Vint 42]
                    (store (rendered stale (chars "ready"))
                           (chars "value=42" ++ [NUL])) 8;
     step_swiftLogHandler (store (rendered stale (chars "ready"))
                                 (chars "value=42" ++ [NUL]))]
    tt.
Proof.
  apply (proj2 (logMessageCallback_twice
                  (chars "ready") [] (chars "value=%d") [Vint 42] _ tt)).
  exists (List.map stale (seq 0 2048)), (rendered stale (chars "ready")),
         5%Z, (rendered stale (chars "ready")),
         (store (rendered stale (chars "ready")) (chars "value=42" ++ [NUL])),
         8%Z.
  split; reflexivity.
Defined.

(** X3.  Fetching the callback address before and after a log call: the
    runs to the return are exactly the three interactions of the one log
    call, one run for every answer of the stack and of [vsnprintf]; the
    fetches add no interaction, and both return the address of
    [logMessageCallback]. *)
Theorem getLogMessageCallbackPointer_around_call format args tr r :
  executes (p <- getLogMessageCallbackPointer ;;
            logMessageCallback format args ;;
            q <- getLogMessageCallbackPointer ;;
            Ret (p, q)) tr r
  <-> r = (FunPtr fn_logMessageCallback, FunPtr fn_logMessageCallback)
      /\ exists contents buffer ret,
          tr = [step_Alloca 2048 contents;
                step_vsnprintf contents sizeof_buffer format args buffer ret;
                step_swiftLogHandler buffer].
Proof.
  split.
  - intros H. apply executes_bind_inv in H.
    destruct H as (tr0 & p & tr1 & Hp & H & ->).
    apply executes_getLogMessageCallbackPointer_inv in Hp.
    destruct Hp as [-> ->].
    apply executes_after_logMessageCallback in H.
    destruct H as (contents & buffer & ret & tr' & -> & H).
    apply executes_bind_inv in H.
    destruct H as (tr2 & q & tr3 & Hq & H & ->).
    apply executes_getLogMessageCallbackPointer_inv in Hq.
    destruct Hq as [-> ->].
    eapply executes_inv_RetF in H; [|cbn; reflexivity].
    destruct H as [-> ->].
    split; [reflexivity|].
    exists contents, buffer, ret. reflexivity.
  - intros [-> (contents & buffer & ret & ->)].
    apply executes_fetch_call_fetch.
Qed.

(** A fetch, ["ready"], a fetch: this is a run, and it returns the address
    twice. *)
Lemma getLogMessageCallbackPointer_around_call_example :
  executes (p <- getLogMessageCallbackPointer ;;
            logMessageCallback (chars "ready") [] ;;
            q <- getLogMessageCallbackPointer ;;
            Ret (p, q))
           [step_Alloca 2048 (List.map stale (seq 0 2048));
            step_vsnprintf (List.map stale (seq 0 2048)) sizeof_buffer
                           (chars "ready") []
                           (rendered stale (chars "ready")) 5;
            step_swiftLogHandler (rendered stale (chars "ready"))]
           (FunPtr fn_logMessageCallback, FunPtr fn_logMessageCallback).
Proof.
  apply (proj2 (getLogMessageCallbackPointer_around_call
                  (chars "ready") [] _ _)).
  split; [reflexivity|].
  exists (List.map stale (seq 0 2048)), (rendered stale (chars "ready")),
         5%Z.
  reflexivity.
Defined.

(** X4.  With the Swift side given a meaning, and the stack free to hand
    every call a different array: a call whose arguments match its format,
    followed by anything, is the handler applied to the world, on the
    array this call took as rendered, and then what follows, run from the
    world the handler left.  So two calls in sequence deliver their two
    arrays in the order of the calls, the second on top of the first, each
    rendered over what the stack handed to that call. *)
Theorem logMessageCallback_messages_in_order
        (World : Type) (swift : list ascii -> World -> World)
        (vformat : list ascii -> va_list -> option (list ascii))
        stack taken format1 args1 out1 format2 args2 out2 (w : World) :
  vformat format1 args1 = Some out1 ->
  vformat format2 args2 = Some out2 ->
  (forall T (k : itree bridgeE T),
      exec_calls swift vformat stack taken
                 (logMessageCallback format1 args1 ;; k) w
      ≈ exec_calls swift vformat stack (S taken) k
                   (swift (rendered (stack taken) out1) w))
  /\ exec_calls swift vformat stack taken
                (logMessageCallback format1 args1 ;;
                 logMessageCallback format2 args2) w
     ≈ Ret (swift (rendered (stack (S taken)) out2)
                  (swift (rendered (stack taken) out1) w),
            (S (S taken), tt)).
Proof.
  intros Hout1 Hout2. split.
  - intros T k. apply exec_calls_then, Hout1.
  - rewrite (exec_calls_then vformat stack World swift taken _ _ _ _ w Hout1).
    apply exec_calls_logMessageCallback, Hout2.
Qed.

(** ["value=%d"] with 42 and then ["ready"], the second call finding the
    array of the first on the stack, and a Swift side that keeps the first
    nine chars of each array: behind ["ready"] and its NUL it finds the
    [4], the [2] and the NUL that the first call left. *)
Lemma logMessageCallback_messages_in_order_example :
  exec_calls keep_head printf_fragment
             (reused (rendered stale (chars "value=42"))) 0
             (logMessageCallback (chars "value=%d") [Vint 42] ;;
              logMessageCallback (chars "ready") []) []
  ≈ Ret ([chars "ready" ++ [NUL; "4"; "2"; NUL]%char;
          chars "value=42" ++ [NUL]],
         (2, tt)).
Proof.
  pose proof (proj2 (logMessageCallback_messages_in_order
                       (list (list ascii)) keep_head printf_fragment
                       (reused (rendered stale (chars "value=42"))) 0
                       (chars "value=%d") [Vint 42] (chars "value=42")
                       (chars "ready") [] (chars "ready")
                       [] eq_refl eq_refl)) as H.
  assert (E1 : keep_head (rendered (reused (rendered stale (chars "value=42"))
                                           0) (chars "value=42")) []
               = [chars "value=42" ++ [NUL]])
    by (vm_compute; reflexivity).
  assert (E2 : forall log,
             keep_head (rendered (reused (rendered stale (chars "value=42"))
                                         1) (chars "ready")) log
             = (chars "ready" ++ [NUL; "4"; "2"; NUL]%char) :: log)
    by (intros log; unfold keep_head; f_equal; vm_compute; reflexivity).
  rewrite E1, E2 in H. exact H.
Defined.

(** X5.  The array handed to the handler is never cleared: for arguments
    that match the format it holds the kept output, the NUL, and behind the
    NUL every char the stack held at that position when the array was
    taken. *)
Theorem logMessageCallback_array_contents
        (vformat : list ascii -> va_list -> option (list ascii))
        garbage format args out :
  vformat format args = Some out ->
  calls_handler_with
    (run vformat garbage (logMessageCallback format args))
    (firstn 2047 out
     ++ NUL :: List.map garbage
                        (seq (S (Nat.min 2047 (List.length out)))
                             (2047 - Nat.min 2047 (List.length out)))).
Proof.
  intros Hout. rewrite <- rendered_contents.
  apply run_logMessageCallback, Hout.
Qed.

(** After ["ready"], positions 6 to 2047 of the array are stale. *)
Lemma logMessageCallback_array_contents_example :
  calls_handler_with
    (run printf_fragment stale (logMessageCallback (chars "ready") []))
    (chars "ready" ++ NUL :: List.map stale (seq 6 2042)).
Proof.
  exact (logMessageCallback_array_contents
           printf_fragment stale (chars "ready") [] (chars "ready") eq_refl).
Defined.

(** X6.  For arguments that match the format, the text the handler reads
    is a prefix of the formatted output and holds no NUL: no char of the
    stack and no char out of place gets into it.  When the output holds no
    NUL, the text is its first 2047 bytes, or all of it when it is
    shorter, and what is lost is the output from byte 2047 on. *)
Theorem logMessageCallback_text_prefix
        (vformat : list ascii -> va_list -> option (list ascii))
        garbage format args out :
  vformat format args = Some out ->
  exists text rest,
    handler_receives vformat garbage format args text
    /\ out = text ++ rest
    /\ ~ In NUL text
    /\ (~ In NUL out ->
        List.length text = Nat.min 2047 (List.length out)
        /\ rest = skipn 2047 out).
Proof.
  intros Hout.
  destruct (until_nul_prefix (firstn 2047 out)) as [rest Hrest].
  exists (until_nul (firstn 2047 out)), (rest ++ skipn 2047 out).
  split; [apply handler_receives_rendered, Hout|].
  split.
  { rewrite app_assoc, <- Hrest. symmetry. apply firstn_skipn. }
  split; [apply until_nul_not_In|].
  intros Hnul.
  assert (Hfirst : until_nul (firstn 2047 out) = firstn 2047 out).
  { apply until_nul_no_nul. intros H. apply Hnul. eapply In_firstn, H. }
  rewrite Hfirst in Hrest |- *.
  split; [apply length_firstn|].
  rewrite <- (app_nil_r (firstn 2047 out)) in Hrest at 1.
  apply app_inv_head in Hrest. now rewrite <- Hrest.
Qed.

(** Of 3000 [x] the handler reads 2047, and 953 are lost. *)
Lemma logMessageCallback_text_prefix_example :
  exists text rest,
    handler_receives printf_fragment stale
                     (chars "%s") [Vstr (repeat "x"%char 3000)] text
    /\ repeat "x"%char 3000 = text ++ rest
    /\ ~ In NUL text
    /\ (~ In NUL (repeat "x"%char 3000) ->
        List.length text = Nat.min 2047 (List.length (repeat "x"%char 3000))
        /\ rest = skipn 2047 (repeat "x"%char 3000)).
Proof.
  refine (logMessageCallback_text_prefix
            printf_fragment stale (chars "%s")
            [Vstr (repeat "x"%char 3000)] (repeat "x"%char 3000) _).
  vm_compute. reflexivity.
Defined.
